(** * Layout arithmetic and writer protocol of [generatePDF]

    A shallow embedding of [src/lib/pdf-generator.ts].

    Numbers.  The source computes with JavaScript numbers.  They are
    modelled here by exact rationals ([Q], compared with [==]): every
    constant of the source (210, 297, 20, 0.8, 0.9, 40, 30, 120, ...) is a
    rational and every operation is one of [+ - * /].  IEEE rounding, NaN
    and the infinities are outside the model; in particular [x / 0] is [0]
    in [Q] but an infinity or NaN in JavaScript, which is why the
    statements about images assume strictly positive pixel dimensions.

    Effects.  The jsPDF document, the image loader and the canvas are
    external collaborators; they are represented by an environment of
    oracles and a log of the writer calls that completed. *)

From Stdlib Require Import ZArith QArith Qminmax Lqa Lia List String Bool.
Import ListNotations.

Local Open Scope Q_scope.

(** ** Comparisons of JavaScript numbers *)

Definition Qgtb (x y : Q) : bool := negb (Qle_bool x y).
Definition Qltb (x y : Q) : bool := negb (Qle_bool y x).

(** ** Images and dimensions *)

(** The part of an [HTMLImageElement] the generator reads: its source
    locator and its pixel width and height. *)
Record HTMLImageElement : Type := mkImage {
  img_src : string;
  img_width : Z;
  img_height : Z
}.

(** The object literal [{ width, height }] returned by
    [calculateImageDimensions]. *)
Record Dimensions : Type := mkDimensions {
  width : Q;
  height : Q
}.

(** [const aspectRatio = img.width / img.height] *)
Definition aspectRatio (img : HTMLImageElement) : Q :=
  inject_Z (img_width img) / inject_Z (img_height img).

Definition minWidth : Q := 40.
Definition minHeight : Q := 30.

(** [calculateImageDimensions], statement by statement: the two [let]
    variables are threaded through the three [if]s. *)
Definition calculateImageDimensions
    (img : HTMLImageElement) (maxWidth maxHeight : Q) : Dimensions :=
  let aspectRatio := aspectRatio img in
  let width0 := maxWidth in
  let height0 := width0 / aspectRatio in
  let '(width1, height1) :=
    if Qgtb height0 maxHeight
    then (maxHeight * aspectRatio, maxHeight)
    else (width0, height0) in
  let '(width2, height2) :=
    if Qltb width1 minWidth
    then (minWidth, minWidth / aspectRatio)
    else (width1, height1) in
  let '(width3, height3) :=
    if Qltb height2 minHeight
    then (minHeight * aspectRatio, minHeight)
    else (width2, height2) in
  mkDimensions width3 height3.

(** The same function with every division checked: [None] as soon as a
    divisor is zero (where JavaScript would produce an infinity or NaN). *)
Definition checked_div (x y : Q) : option Q :=
  if Qeq_bool y 0 then None else Some (x / y).

Definition calculateImageDimensions_checked
    (img : HTMLImageElement) (maxWidth maxHeight : Q) : option Dimensions :=
  match checked_div (inject_Z (img_width img)) (inject_Z (img_height img)) with
  | None => None
  | Some aspectRatio =>
    let width0 := maxWidth in
    match checked_div width0 aspectRatio with
    | None => None
    | Some height0 =>
      let '(width1, height1) :=
        if Qgtb height0 maxHeight
        then (maxHeight * aspectRatio, maxHeight)
        else (width0, height0) in
      match
        (if Qltb width1 minWidth
         then option_map (fun h => (minWidth, h)) (checked_div minWidth aspectRatio)
         else Some (width1, height1))
      with
      | None => None
      | Some (width2, height2) =>
        let '(width3, height3) :=
          if Qltb height2 minHeight
          then (minHeight * aspectRatio, minHeight)
          else (width2, height2) in
        Some (mkDimensions width3 height3)
      end
    end
  end.

(** The fit described in prose: fill the box width-first, fall back to the
    height-constrained size when the width-first height does not fit. *)
Definition width_first_fill (r maxWidth maxHeight : Q) : Dimensions :=
  if Qle_bool (maxWidth / r) maxHeight
  then mkDimensions maxWidth (maxWidth / r)
  else mkDimensions (maxHeight * r) maxHeight.

(** Neither minimum-size clamp fires on the fitted size. *)
Definition no_clamp_fires (r maxWidth maxHeight : Q) : Prop :=
  minWidth <= width (width_first_fill r maxWidth maxHeight) /\
  minHeight <= height (width_first_fill r maxWidth maxHeight).

Definition positive_image (img : HTMLImageElement) : Prop :=
  (0 < img_width img)%Z /\ (0 < img_height img)%Z.

(** ** Input of the generator *)

(** [interface ImageData]: the generator only reads [url]; the [file]
    field is never inspected and is left out. *)
Record ImageData : Type := mkImageData {
  url : string
}.

Record PDFData : Type := mkPDFData {
  studentId : string;
  studentName : string;
  images : list ImageData
}.

(** ** Page geometry: the constants at the head of [generatePDF] *)

Definition pageWidth : Q := 210.
Definition pageHeight : Q := 297.
Definition margin : Q := 20.
Definition contentWidth : Q := pageWidth - margin * 2.
Definition contentHeight : Q := pageHeight - margin * 2.

(** ** The Document Writer seen from the generator *)

(** First argument of [pdf.addImage]: a decoded image element (the
    photographs) or a data URL (the rasterized caption). *)
Inductive ImageArg : Type :=
| Element (img : HTMLImageElement)
| DataURL (dataURL : string).

(** The writer calls the generator makes.  [text] stands for the group
    [setFont("helvetica","bold"); setFontSize(fontSize); text(encoded, x, y,
    {align: "center", charSpace: 0.5})] together with the encoding of the
    string that precedes it in the same [try] block. *)
Inductive Call : Type :=
| text (txt : string) (x y fontSize : Q)
| addImage (imageData : ImageArg) (format : string) (x y w h : Q)
| addPage
| save (fileName : string).

(** What [generatePDF] can have in flight as an exception. *)
Inductive Thrown : Type :=
| LoadRejected (locator : string)
| WriterThrew (c : Call)
| Error (message : string).

(** The pending [img.onload] handler installed by [addTextAsImage]: the
    raster being decoded and the anchor point captured by the closure. *)
Record Task : Type := mkTask {
  task_img : HTMLImageElement;
  task_x : Q;
  task_y : Q
}.

(** The collaborators.
    - [loader u]: outcome of [loadImage(u)], [None] when [onerror] fires;
    - [accepts c]: the writer performs [c] without throwing;
    - [rasterize txt fontSize]: the image element obtained from the canvas
      (2000 x 200 pixels in the source) on which [txt] was drawn, its
      [img_src] being the data URL;
    - [onload_during_await]: whether pending [onload] handlers get to run
      while [generatePDF] is suspended in an [await loadImage(...)]; both
      orders are possible, the two loads race. *)
Record Env : Type := mkEnv {
  loader : string -> option HTMLImageElement;
  accepts : Call -> bool;
  rasterize : string -> Q -> HTMLImageElement;
  onload_during_await : bool
}.

(** The writer log (calls completed so far, oldest first) and the
    handlers waiting for their [load] event. *)
Record State : Type := mkState {
  calls : list Call;
  pending : list Task
}.

(** [new jsPDF(...)]: nothing placed yet, nothing pending. *)
Definition initial : State := mkState [] [].

Inductive Result (A : Type) : Type :=
| Returned (a : A)
| Threw (e : Thrown).
Arguments Returned {A} a.
Arguments Threw {A} e.

(** Computations of the generator: they read and extend the state and
    either return or throw; the state reached is kept in both cases. *)
Definition M (A : Type) : Type := State -> Result A * State.

Definition ret {A} (a : A) : M A := fun s => (Returned a, s).

Definition throw {A} (e : Thrown) : M A := fun s => (Threw e, s).

Definition bind {A B} (m : M A) (k : A -> M B) : M B :=
  fun s =>
    match m s with
    | (Returned a, s') => k a s'
    | (Threw e, s') => (Threw e, s')
    end.

(** [try { m } catch (e) { handler e }] *)
Definition try_catch {A} (m : M A) (handler : Thrown -> M A) : M A :=
  fun s =>
    match m s with
    | (Returned a, s') => (Returned a, s')
    | (Threw e, s') => handler e s'
    end.

Declare Scope gen_scope.
Delimit Scope gen_scope with gen.
Notation "x <- m ;; k" := (bind m (fun x => k))
  (at level 61, m at next level, right associativity) : gen_scope.
Notation "m ;; k" := (bind m (fun _ => k))
  (at level 61, right associativity) : gen_scope.

(** The body of the [img.onload] handler of [addTextAsImage]: the writer
    call it issues. *)
Definition onload (t : Task) : Call :=
  let img := task_img t in
  let textWidth := 120 in
  let textHeight :=
    (inject_Z (img_height img) / inject_Z (img_width img)) * textWidth in
  addImage (DataURL (img_src img)) "PNG"
    (task_x t - textWidth / 2) (task_y t - textHeight / 2) textWidth textHeight.

Section Generator.

Variable env : Env.

Local Open Scope gen_scope.

(** A writer call made by the main flow. *)
Definition call (c : Call) : M unit :=
  fun s =>
    if accepts env c
    then (Returned tt, mkState (calls s ++ [c]) (pending s))
    else (Threw (WriterThrew c), s).

(** A [load] event reaches its handler.  An exception of [pdf.addImage]
    there is raised inside the event handler and never reaches
    [generatePDF]. *)
Definition fire (log : list Call) (t : Task) : list Call :=
  if accepts env (onload t) then log ++ [onload t] else log.

(** All pending handlers run, oldest first. *)
Definition settle (s : State) : State :=
  mkState (fold_left fire (pending s) (calls s)) [].

(** [await loadImage(url)] *)
Definition loadImage (u : string) : M HTMLImageElement :=
  fun s =>
    let s' := if onload_during_await env then settle s else s in
    match loader env u with
    | Some img => (Returned img, s')
    | None => (Threw (LoadRejected u), s')
    end.

(** [addTextAsImage(text, x, y, fontSize)] without [await]: the canvas is
    drawn, the handler is installed, and the call returns its promise at
    once. *)
Definition addTextAsImage (txt : string) (x y fontSize : Q) : M unit :=
  fun s =>
    (Returned tt,
     mkState (calls s) (pending s ++ [mkTask (rasterize env txt fontSize) x y])).

(** [await addTextAsImage(...)]: the caller resumes once the handler has
    run. *)
Definition await_addTextAsImage (txt : string) (x y fontSize : Q) : M unit :=
  addTextAsImage txt x y fontSize ;; (fun s => (Returned tt, settle s)).

(** [addKoreanText]: direct text, and in its own [catch] the fallback,
    whose promise is returned to a caller that drops it. *)
Definition addKoreanText (txt : string) (x y fontSize : Q) : M unit :=
  try_catch
    (call (text txt x y fontSize))
    (fun _ => addTextAsImage txt x y (fontSize * 3)).

(** The template literal [`${studentId} ${studentName}`]. *)
Definition caption (data : PDFData) : string :=
  (studentId data ++ " " ++ studentName data)%string.

(** Branch [images.length === 1]. *)
Definition layout_one (data : PDFData) (image0 : ImageData) : M unit :=
  img <- loadImage (url image0) ;;
  let textY := margin + 15 in
  let availableHeight := contentHeight - 40 in
  let d := calculateImageDimensions img (contentWidth * 0.8) (availableHeight * 0.8) in
  let imageX := margin + (contentWidth - width d) / 2 in
  let imageY := margin + 40 in
  let textX := pageWidth / 2 in
  try_catch
    (addKoreanText (caption data) textX textY 28)
    (fun _ => await_addTextAsImage (caption data) textX textY 84) ;;
  call (addImage (Element img) "JPEG" imageX imageY (width d) (height d)).

(** Branch [images.length === 2]. *)
Definition layout_two (data : PDFData) (image0 image1 : ImageData) : M unit :=
  img1 <- loadImage (url image0) ;;
  img2 <- loadImage (url image1) ;;
  let textY := margin + 15 in
  let gap := 15 in
  let availableWidth := (contentWidth - gap) / 2 in
  let availableHeight := contentHeight - 40 in
  let textX := pageWidth / 2 in
  try_catch
    (addKoreanText (caption data) textX textY 28)
    (fun _ => await_addTextAsImage (caption data) textX textY 84) ;;
  let d1 := calculateImageDimensions img1 (availableWidth * 0.9) (availableHeight * 0.9) in
  let d2 := calculateImageDimensions img2 (availableWidth * 0.9) (availableHeight * 0.9) in
  let image1X := margin + (availableWidth - width d1) / 2 in
  let image1Y := margin + 40 + (availableHeight - height d1) / 2 in
  let image2X := margin + availableWidth + gap + (availableWidth - width d2) / 2 in
  let image2Y := margin + 40 + (availableHeight - height d2) / 2 in
  call (addImage (Element img1) "JPEG" image1X image1Y (width d1) (height d1)) ;;
  call (addImage (Element img2) "JPEG" image2X image2Y (width d2) (height d2)).

(** Branch [images.length === 3]. *)
Definition layout_three (data : PDFData) (image0 image1 image2 : ImageData) : M unit :=
  img1 <- loadImage (url image0) ;;
  img2 <- loadImage (url image1) ;;
  let textY := margin + 15 in
  let gap := 15 in
  let availableWidth := (contentWidth - gap) / 2 in
  let availableHeight := contentHeight - 40 in
  let textX := pageWidth / 2 in
  try_catch
    (addKoreanText (caption data) textX textY 28)
    (fun _ => await_addTextAsImage (caption data) textX textY 84) ;;
  let d1 := calculateImageDimensions img1 (availableWidth * 0.9) (availableHeight * 0.9) in
  let d2 := calculateImageDimensions img2 (availableWidth * 0.9) (availableHeight * 0.9) in
  let image1X := margin + (availableWidth - width d1) / 2 in
  let image1Y := margin + 40 + (availableHeight - height d1) / 2 in
  let image2X := margin + availableWidth + gap + (availableWidth - width d2) / 2 in
  let image2Y := margin + 40 + (availableHeight - height d2) / 2 in
  call (addImage (Element img1) "JPEG" image1X image1Y (width d1) (height d1)) ;;
  call (addImage (Element img2) "JPEG" image2X image2Y (width d2) (height d2)) ;;
  call addPage ;;
  img3 <- loadImage (url image2) ;;
  let availableHeight3 := contentHeight - 40 in
  let d3 := calculateImageDimensions img3 (contentWidth * 0.8) (availableHeight3 * 0.8) in
  let image3X := margin + (contentWidth - width d3) / 2 in
  let image3Y := margin + 40 in
  let text2X := pageWidth / 2 in
  let text2Y := margin + 15 in
  try_catch
    (addKoreanText (caption data) text2X text2Y 28)
    (fun _ => await_addTextAsImage (caption data) text2X text2Y 84) ;;
  call (addImage (Element img3) "JPEG" image3X image3Y (width d3) (height d3)).

(** The [if / else if] chain on [images.length]; no final [else]. *)
Definition layout (data : PDFData) : M unit :=
  match images data with
  | [image0] => layout_one data image0
  | [image0; image1] => layout_two data image0 image1
  | [image0; image1; image2] => layout_three data image0 image1 image2
  | _ => ret tt
  end.

(** [`${studentId}_${studentName}.pdf`] *)
Definition fileName (data : PDFData) : string :=
  (studentId data ++ "_" ++ studentName data ++ ".pdf")%string.

Definition generation_error : Thrown :=
  Error "PDF 생성 중 오류가 발생했습니다.".

(** The outer [try { ... pdf.save(fileName) } catch (error) { throw new
    Error(...) }] of [generatePDF]. *)
Definition generatePDF (data : PDFData) : M unit :=
  try_catch
    (layout data ;; call (save (fileName data)))
    (fun _ => throw generation_error).

(** One whole execution: [generatePDF] on a fresh document, followed by
    the [load] events still outstanding when it settles. *)
Definition run (data : PDFData) : Result unit * State :=
  let '(r, s) := generatePDF data initial in (r, settle s).

Definition outcome (data : PDFData) : Result unit := fst (run data).

(** The complete sequence of writer calls of an execution. *)
Definition writer_log (data : PDFData) : list Call := calls (snd (run data)).

End Generator.

(** ** Reading the writer log *)

(** The rectangle of a placed element. *)
Record Placement : Type := mkPlacement {
  px : Q;
  py : Q;
  pwidth : Q;
  pheight : Q
}.

Definition is_caption (c : Call) : bool :=
  match c with
  | text _ _ _ _ => true
  | addImage (DataURL _) _ _ _ _ _ => true
  | _ => false
  end.

Definition is_photo (c : Call) : bool :=
  match c with
  | addImage (Element _) _ _ _ _ _ => true
  | _ => false
  end.

Definition is_save (c : Call) : bool :=
  match c with
  | save _ => true
  | _ => false
  end.

Definition is_addPage (c : Call) : bool :=
  match c with
  | addPage => true
  | _ => false
  end.

(** Rectangles of the photographs, in the order they were placed. *)
Fixpoint photo_placements (log : list Call) : list Placement :=
  match log with
  | [] => []
  | addImage (Element _) _ x y w h :: rest =>
      mkPlacement x y w h :: photo_placements rest
  | _ :: rest => photo_placements rest
  end.

(** The document handed to the caller: what the writer held when [save]
    completed, if it did. *)
Fixpoint document (log : list Call) : option (list Call) :=
  match log with
  | [] => None
  | save _ :: _ => Some []
  | c :: rest => option_map (cons c) (document rest)
  end.

(** jsPDF opens a document with its first page; each [addPage] appends
    one. *)
Definition pageCount (doc : list Call) : nat :=
  S (List.length (filter is_addPage doc)).

(** The calls page by page: a new page starts at each [addPage]. *)
Fixpoint pages_of (log : list Call) : list (list Call) :=
  match log with
  | [] => [[]]
  | addPage :: rest => [] :: pages_of rest
  | c :: rest =>
      match pages_of rest with
      | [] => [[c]]
      | p :: ps => (c :: p) :: ps
      end
  end.

(** On one page: no photograph is placed before the caption is. *)
Fixpoint caption_first (page : list Call) : bool :=
  match page with
  | [] => true
  | c :: rest =>
      if is_caption c then true
      else if is_photo c then false
      else caption_first rest
  end.

Definition captions_lead (log : list Call) : bool :=
  forallb caption_first (pages_of log).

(** The claim that an execution did nothing at all: it returned, no
    document came out of it, and neither text nor image was placed. *)
Definition silent_noop (env : Env) (data : PDFData) : Prop :=
  outcome env data = Returned tt /\
  document (writer_log env data) = None /\
  forallb (fun c => negb (is_caption c || is_photo c)) (writer_log env data) = true.


(** ** Test doubles *)

(** Every image loads as a [w] x [h] picture, the writer accepts every
    call except, when [direct] is false, [text]; the canvas yields a
    2000 x 200 raster. *)
Definition writer_accepts (direct : bool) (c : Call) : bool :=
  match c with
  | text _ _ _ _ => direct
  | _ => true
  end.

Definition canvas_raster (txt : string) (fontSize : Q) : HTMLImageElement :=
  mkImage ("data:image/png," ++ txt) 2000 200.

Definition double (w h : Z) (direct early : bool) : Env :=
  mkEnv (fun u => Some (mkImage u w h)) (writer_accepts direct)
        canvas_raster early.

Definition receipts (n : nat) : PDFData :=
  mkPDFData "2024001" "Kim"
    (map (fun k => mkImageData (String (Ascii.ascii_of_nat (97 + k)) ".jpg")) (seq 0 n)).

(** No image can be fetched. *)
Definition unreachable_images : Env :=
  mkEnv (fun _ => None) (writer_accepts true) canvas_raster false.

(** The number of pages the branch for [n] images is meant to produce. *)
Definition expected_pages (n : nat) : nat :=
  match n with
  | 3%nat => 2%nat
  | _ => 1%nat
  end.

(** A rasterized caption placement. *)
Definition is_raster (c : Call) : bool :=
  match c with
  | addImage (DataURL _) _ _ _ _ _ => true
  | _ => false
  end.
(** ** A writer that always draws text directly *)

(** The environment [env] with the direct [text] step made to succeed;
    every other answer is unchanged. *)
Definition with_direct_text (env : Env) : Env :=
  mkEnv (loader env)
        (fun c => match c with
                  | text _ _ _ _ => true
                  | _ => accepts env c
                  end)
        (rasterize env)
        (onload_during_await env).

(** ** The steps of a generation *)

(** The environment [env] with a writer that refuses nothing. *)
Definition with_willing_writer (env : Env) : Env :=
  mkEnv (loader env) (fun _ => true) (rasterize env) (onload_during_await env).

(** The writer calls a generation consists of: the ones it makes, in
    order, when none of them throws. *)
Definition writer_steps (env : Env) (data : PDFData) : list Call :=
  writer_log (with_willing_writer env) data.

(** The claim that a throwing step always aborts: as soon as the writer
    refuses one of the steps, the generation error is raised and nothing
    is saved. *)
Definition any_throw_aborts (env : Env) (data : PDFData) : Prop :=
  forall c, In c (writer_steps env data) -> accepts env c = false ->
    outcome env data = Threw generation_error /\
    document (writer_log env data) = None.

(** The direct text of a caption. *)
Definition is_text (c : Call) : bool :=
  match c with
  | text _ _ _ _ => true
  | _ => false
  end.

(** ** Comparisons *)

Lemma Qgtb_true x y : Qgtb x y = true <-> y < x.
Proof.
  unfold Qgtb. rewrite negb_true_iff, <- not_true_iff_false, Qle_bool_iff.
  split; [apply Qnot_le_lt | apply Qlt_not_le].
Qed.

Lemma Qgtb_false x y : Qgtb x y = false <-> x <= y.
Proof. unfold Qgtb. now rewrite negb_false_iff, Qle_bool_iff. Qed.

Lemma Qltb_true x y : Qltb x y = true <-> x < y.
Proof. unfold Qltb. apply Qgtb_true. Qed.

Lemma Qltb_false x y : Qltb x y = false <-> y <= x.
Proof. unfold Qltb. apply Qgtb_false. Qed.

(** ** Facts about the aspect ratio *)

Lemma aspectRatio_pos img : positive_image img -> 0 < aspectRatio img.
Proof.
  intros [Hw Hh]. unfold aspectRatio.
  apply Qlt_shift_div_l.
  - change 0 with (inject_Z 0). now rewrite <- Zlt_Qlt.
  - rewrite Qmult_0_l. change 0 with (inject_Z 0). now rewrite <- Zlt_Qlt.
Qed.

Lemma div_mul_ratio (x r : Q) : 0 < r -> x / r * r == x.
Proof. intros Hr. field. lra. Qed.

(** ** The fit: ratio, floors, containment *)

Section Fit.

Variable img : HTMLImageElement.
Hypothesis img_pos : positive_image img.
Variables maxWidth maxHeight : Q.

Let r := aspectRatio img.

Lemma ratio_pos : 0 < r.
Proof. exact (aspectRatio_pos img img_pos). Qed.

(** Every assignment of the function keeps [width == height * r]; the two
    clamps establish the floors. *)
Lemma fit_invariant :
  let d := calculateImageDimensions img maxWidth maxHeight in
  width d == height d * r /\ minWidth <= width d /\ minHeight <= height d.
Proof.
  pose proof ratio_pos as Hr.
  unfold calculateImageDimensions, minWidth, minHeight. fold r.
  pose proof (div_mul_ratio maxWidth r Hr) as Hw.
  pose proof (div_mul_ratio 40 r Hr) as H40.
  set (hw := maxWidth / r) in *. set (h40 := 40 / r) in *.
  destruct (Qgtb hw maxHeight) eqn:E1;
    [apply Qgtb_true in E1 | apply Qgtb_false in E1];
    match goal with
    | |- context [Qltb ?w 40] =>
        destruct (Qltb w 40) eqn:E2;
          [apply Qltb_true in E2 | apply Qltb_false in E2]
    end;
    match goal with
    | |- context [Qltb ?h 30] =>
        destruct (Qltb h 30) eqn:E3;
          [apply Qltb_true in E3 | apply Qltb_false in E3]
    end;
    cbn [width height]; repeat split; try lra; try nra.
Qed.

Lemma checked_agrees :
  calculateImageDimensions_checked img maxWidth maxHeight =
  Some (calculateImageDimensions img maxWidth maxHeight).
Proof.
  pose proof ratio_pos as Hr. destruct img_pos as [_ Hh].
  unfold calculateImageDimensions_checked, calculateImageDimensions, checked_div.
  fold (aspectRatio img). fold r.
  assert (Nh : Qeq_bool (inject_Z (img_height img)) 0 = false).
  { apply not_true_iff_false. rewrite Qeq_bool_iff.
    change 0 with (inject_Z 0). rewrite inject_Z_injective. lia. }
  assert (Nr : Qeq_bool r 0 = false).
  { apply not_true_iff_false. rewrite Qeq_bool_iff. lra. }
  rewrite Nh, Nr.
  destruct (Qgtb (maxWidth / r) maxHeight);
    match goal with
    | |- context [Qltb ?w minWidth] => destruct (Qltb w minWidth)
    end; cbn [option_map]; try rewrite Nr; cbn [option_map];
    match goal with
    | |- context [Qltb ?h minHeight] => destruct (Qltb h minHeight)
    end; reflexivity.
Qed.

End Fit.

(** ** Claims about [calculateImageDimensions] *)

(** C1. For every image with strictly positive pixel width and height and
    every bounding box, the size returned by [calculateImageDimensions]
    has the image's aspect ratio, a width of at least 40 and a height of
    at least 30. *)
Theorem calculateImageDimensions_ratio_and_floors
    (img : HTMLImageElement) (maxWidth maxHeight : Q) :
  positive_image img ->
  let d := calculateImageDimensions img maxWidth maxHeight in
  width d / height d == aspectRatio img /\ 40 <= width d /\ 30 <= height d.
Proof.
  intros Hpos d.
  destruct (fit_invariant img Hpos maxWidth maxHeight) as (Hr & Hw & Hh).
  fold d in Hr, Hw, Hh. unfold minWidth in Hw. unfold minHeight in Hh.
  repeat split; try assumption.
  rewrite Hr. field. lra.
Qed.

Lemma calculateImageDimensions_ratio_and_floors_witness :
  positive_image (mkImage "wide.jpg" 1000 100) /\
  let d := calculateImageDimensions (mkImage "wide.jpg" 1000 100) 69.75 195.3 in
  width d / height d == aspectRatio (mkImage "wide.jpg" 1000 100) /\
  40 <= width d /\ 30 <= height d.
Proof.
  split.
  - split; reflexivity.
  - apply (calculateImageDimensions_ratio_and_floors
             (mkImage "wide.jpg" 1000 100) 69.75 195.3).
    split; reflexivity.
Defined.

(** C7. For a positive image and a box with positive sides, when neither
    minimum-size clamp fires the function returns the width-first fill of
    the box: [(W, W/r)] if [W/r <= H], otherwise [(H*r, H)]; the result
    then fits the box and touches it on at least one side. *)
Theorem calculateImageDimensions_fills_box
    (img : HTMLImageElement) (maxWidth maxHeight : Q) :
  positive_image img -> 0 < maxWidth -> 0 < maxHeight ->
  no_clamp_fires (aspectRatio img) maxWidth maxHeight ->
  let r := aspectRatio img in
  let d := calculateImageDimensions img maxWidth maxHeight in
  d = width_first_fill r maxWidth maxHeight /\
  (maxWidth / r <= maxHeight -> d = mkDimensions maxWidth (maxWidth / r)) /\
  (~ maxWidth / r <= maxHeight -> d = mkDimensions (maxHeight * r) maxHeight) /\
  width d <= maxWidth /\ height d <= maxHeight /\
  (width d == maxWidth \/ height d == maxHeight).
Proof.
  intros Hpos HW HH [Hcw Hch] r d.
  pose proof (aspectRatio_pos img Hpos) as Hr. fold r in Hr, Hcw, Hch.
  pose proof (div_mul_ratio maxWidth r Hr) as Hmul.
  unfold width_first_fill in *.
  subst d. unfold calculateImageDimensions. fold r.
  unfold Qgtb, Qltb.
  destruct (Qle_bool (maxWidth / r) maxHeight) eqn:E; cbn [negb];
    cbn [width height] in Hcw, Hch;
    [apply Qle_bool_iff in E | apply not_true_iff_false in E; rewrite Qle_bool_iff in E].
  - apply Qle_bool_iff in Hcw. apply Qle_bool_iff in Hch.
    rewrite Hcw. cbn [negb]. rewrite Hch. cbn [negb width height].
    repeat split; try reflexivity; try lra; try tauto.
  - apply Qle_bool_iff in Hcw. apply Qle_bool_iff in Hch.
    rewrite Hcw. cbn [negb]. rewrite Hch. cbn [negb width height].
    apply Qnot_le_lt in E.
    repeat split; try reflexivity; try lra; try tauto.
    set (q := maxWidth / r) in *. nra.
Qed.

Lemma calculateImageDimensions_fills_box_witness :
  let img := mkImage "photo.jpg" 400 300 in
  positive_image img /\ 0 < 136 /\ 0 < 173.6 /\
  no_clamp_fires (aspectRatio img) 136 173.6 /\
  calculateImageDimensions img 136 173.6 =
    mkDimensions 136 (136 / aspectRatio img).
Proof.
  assert (P : positive_image (mkImage "photo.jpg" 400 300)) by (split; reflexivity).
  assert (W : 0 < 136) by reflexivity.
  assert (H : 0 < 173.6) by reflexivity.
  assert (C : no_clamp_fires (aspectRatio (mkImage "photo.jpg" 400 300)) 136 173.6).
  { split; vm_compute; discriminate. }
  intros img.
  split; [exact P |]. split; [exact W |]. split; [exact H |].
  split; [exact C |].
  apply (calculateImageDimensions_fills_box _ 136 173.6 P W H C).
  vm_compute; discriminate.
Defined.

(** C10. For a positive image and a box with positive sides, no division
    of [calculateImageDimensions] has a zero divisor ([img.height] and
    [aspectRatio] are non-zero, so the checked evaluation succeeds with
    the same value) and the returned width and height are strictly
    positive. *)
Theorem calculateImageDimensions_no_zero_divisor
    (img : HTMLImageElement) (maxWidth maxHeight : Q) :
  positive_image img -> 0 < maxWidth -> 0 < maxHeight ->
  let d := calculateImageDimensions img maxWidth maxHeight in
  ~ inject_Z (img_height img) == 0 /\
  ~ aspectRatio img == 0 /\
  calculateImageDimensions_checked img maxWidth maxHeight = Some d /\
  0 < width d /\ 0 < height d.
Proof.
  intros Hpos _ _ d.
  pose proof (aspectRatio_pos img Hpos) as Hr.
  destruct (fit_invariant img Hpos maxWidth maxHeight) as (_ & Hw & Hh).
  fold d in Hw, Hh. unfold minWidth in Hw. unfold minHeight in Hh.
  repeat split; try lra.
  - destruct Hpos as [_ Hh']. change 0 with (inject_Z 0).
    rewrite inject_Z_injective. lia.
  - exact (checked_agrees img Hpos maxWidth maxHeight).
Qed.

Lemma calculateImageDimensions_no_zero_divisor_witness :
  let img := mkImage "tall.jpg" 1 5000 in
  let d := calculateImageDimensions img 136 173.6 in
  calculateImageDimensions_checked img 136 173.6 = Some d /\
  0 < width d /\ 0 < height d.
Proof.
  assert (P : positive_image (mkImage "tall.jpg" 1 5000)) by (split; reflexivity).
  assert (W : 0 < 136) by reflexivity.
  assert (H : 0 < 173.6) by reflexivity.
  exact (proj2 (proj2
    (calculateImageDimensions_no_zero_divisor _ 136 173.6 P W H))).
Defined.

(** ** Executions of [generatePDF] *)

(** Symbolic execution of the generator: unfold the control structure and
    branch on each answer of the collaborators. *)
Ltac unfold_run :=
  cbv beta iota zeta delta
    [run outcome writer_log generatePDF layout layout_one layout_two
     layout_three bind try_catch call loadImage addKoreanText addTextAsImage
     await_addTextAsImage throw ret initial settle fire fold_left app
     fst snd calls pending].

Ltac ask_collaborator :=
  match goal with
  | |- context [accepts ?env ?c] =>
      let E := fresh "Eacc" in destruct (accepts env c) eqn:E
  | |- context [loader ?env ?u] =>
      let E := fresh "Eload" in destruct (loader env u) eqn:E
  | |- context [onload_during_await ?env] =>
      let E := fresh "Eearly" in destruct (onload_during_await env) eqn:E
  end.

Ltac execute := unfold_run; repeat (ask_collaborator; unfold_run).

(** The same when the goal also runs the generator under a derived
    environment. *)
Ltac execute_under :=
  unfold_run;
  repeat (cbn [with_willing_writer with_direct_text
               accepts loader rasterize onload_during_await];
          ask_collaborator; unfold_run);
  cbn [with_willing_writer with_direct_text
       accepts loader rasterize onload_during_await].

(** With no image at all the generator still saves a document: the
    execution is not a no-op. *)
Lemma silent_noop_refuted :
  ~ silent_noop (double 100 100 true false) (receipts 0).
Proof. intros (_ & Hdoc & _). vm_compute in Hdoc. discriminate Hdoc. Qed.

(** C3 (amended). With no image or more than three, [generatePDF]
    places no text and no image and adds no page, but it still calls
    [save]: when the writer accepts it the call returns and the only
    writer call is the [save] of the still empty one-page document under
    [{id}_{name}.pdf]; when [save] throws, the generation error is raised
    and the writer log stays empty. *)
Theorem generatePDF_without_layout (env : Env) (data : PDFData) :
  (List.length (images data) = 0 \/ 3 < List.length (images data))%nat ->
  (accepts env (save (fileName data)) = true ->
     outcome env data = Returned tt /\
     writer_log env data = [save (fileName data)] /\
     document (writer_log env data) = Some [] /\
     pageCount [] = 1%nat) /\
  (accepts env (save (fileName data)) = false ->
     outcome env data = Threw generation_error /\
     writer_log env data = []).
Proof.
  intros Hlen.
  assert (Hskip : layout env data = ret tt).
  { unfold layout.
    destruct (images data) as [| a [| b [| c [| e rest]]]];
      cbn [List.length] in Hlen; try reflexivity; lia. }
  unfold outcome, writer_log, run, generatePDF. rewrite Hskip.
  split; intros Hsave; unfold_run; rewrite Hsave; unfold_run;
    repeat split; reflexivity.
Qed.

Lemma generatePDF_without_layout_witness :
  outcome (double 100 100 true false) (receipts 4) = Returned tt /\
  writer_log (double 100 100 true false) (receipts 4) = [save "2024001_Kim.pdf"].
Proof.
  assert (L : (List.length (images (receipts 4)) = 0 \/
               3 < List.length (images (receipts 4)))%nat)
    by (right; vm_compute; lia).
  destruct (generatePDF_without_layout (double 100 100 true false) (receipts 4) L)
    as [Hsaved _].
  destruct (Hsaved eq_refl) as (Hout & Hlog & _).
  split; [exact Hout | exact Hlog].
Defined.

(** C4. For one, two and three images the document that [generatePDF]
    saves has exactly 1, 1 and 2 pages; and it does save a document
    whenever every image loads and the writer accepts the image, page and
    save calls. *)
Theorem generatePDF_page_count (env : Env) (data : PDFData) :
  (1 <= List.length (images data) <= 3)%nat ->
  (forall doc, document (writer_log env data) = Some doc ->
     pageCount doc = expected_pages (List.length (images data))) /\
  ((forall image, In image (images data) -> loader env (url image) <> None) ->
   (forall c, is_caption c = false -> accepts env c = true) ->
   outcome env data = Returned tt /\
   exists doc, document (writer_log env data) = Some doc).
Proof.
  intros Hlen.
  destruct (images data) as [| a [| b [| c [| e rest]]]] eqn:Himg;
    cbn [List.length] in Hlen; try lia; clear Hlen.
  - split.
    + intros doc. execute; rewrite Himg; execute;
        cbn [document option_map]; intros Hdoc;
        try discriminate Hdoc; injection Hdoc as <-; reflexivity.
    + intros Hload Hacc.
      pose proof (Hload a (or_introl eq_refl)) as La.
      execute; rewrite Himg; execute;
        cbn [document option_map]; try congruence;
        try (split; [reflexivity | eexists; reflexivity]);
        match goal with
        | E : accepts env ?c = false |- _ =>
            rewrite (Hacc c eq_refl) in E; discriminate E
        end.
  - split.
    + intros doc. execute; rewrite Himg; execute;
        cbn [document option_map]; intros Hdoc;
        try discriminate Hdoc; injection Hdoc as <-; reflexivity.
    + intros Hload Hacc.
      pose proof (Hload a (or_introl eq_refl)) as La.
      pose proof (Hload b (or_intror (or_introl eq_refl))) as Lb.
      execute; rewrite Himg; execute;
        cbn [document option_map]; try congruence;
        try (split; [reflexivity | eexists; reflexivity]);
        match goal with
        | E : accepts env ?c = false |- _ =>
            rewrite (Hacc c eq_refl) in E; discriminate E
        end.
  - split.
    + intros doc. execute; rewrite Himg; execute;
        cbn [document option_map]; intros Hdoc;
        try discriminate Hdoc; injection Hdoc as <-; reflexivity.
    + intros Hload Hacc.
      pose proof (Hload a (or_introl eq_refl)) as La.
      pose proof (Hload b (or_intror (or_introl eq_refl))) as Lb.
      pose proof (Hload c (or_intror (or_intror (or_introl eq_refl)))) as Lc.
      execute; rewrite Himg; execute;
        cbn [document option_map]; try congruence;
        try (split; [reflexivity | eexists; reflexivity]);
        match goal with
        | E : accepts env ?c = false |- _ =>
            rewrite (Hacc c eq_refl) in E; discriminate E
        end.
Qed.

Lemma generatePDF_page_count_witness :
  outcome (double 100 100 true false) (receipts 3) = Returned tt /\
  exists doc,
    document (writer_log (double 100 100 true false) (receipts 3)) = Some doc /\
    pageCount doc = 2%nat.
Proof.
  assert (L : (1 <= List.length (images (receipts 3)) <= 3)%nat)
    by (vm_compute; lia).
  destruct (generatePDF_page_count (double 100 100 true false) (receipts 3) L)
    as [Hcount Hsaves].
  destruct Hsaves as [Hout [doc Hdoc]].
  - intros image _. discriminate.
  - intros [| [|] | |]; cbn; intros E; try reflexivity; discriminate E.
  - split; [exact Hout |].
    exists doc. split; [exact Hdoc | exact (Hcount doc Hdoc)].
Defined.

(** The direct text of the caption is a step of the generation, yet a
    writer that refuses it does not stop the document from being saved. *)
Lemma any_throw_aborts_refuted :
  ~ any_throw_aborts (double 100 100 false false) (receipts 1).
Proof.
  intros H.
  destruct (H (text "2024001 Kim" (pageWidth / 2) (margin + 15) 28)) as [Hout _].
  - left. reflexivity.
  - reflexivity.
  - vm_compute in Hout. discriminate Hout.
Qed.

(** C5 (amended). An image that fails to load, and any step other than a
    caption placement that the writer refuses (a photograph, the page
    break, [save]), ends the generation with the one generation error and
    its localized message, and no document has been saved; a refused
    direct text is recovered by the fallback: when nothing else fails the
    generation returns and the document is saved. *)
Theorem generatePDF_failure_is_generation_error (env : Env) (data : PDFData) :
  (forall e, outcome env data = Threw e ->
     e = Error "PDF 생성 중 오류가 발생했습니다." /\
     document (writer_log env data) = None) /\
  (forall e,
     fst (bind (layout env data) (fun _ => call env (save (fileName data))) initial)
       = Threw e ->
     outcome env data = Threw generation_error) /\
  ((1 <= List.length (images data) <= 3)%nat ->
   (exists image, In image (images data) /\ loader env (url image) = None) ->
   outcome env data = Threw generation_error) /\
  ((1 <= List.length (images data) <= 3)%nat ->
   (forall c, is_photo c = true -> accepts env c = false) ->
   outcome env data = Threw generation_error) /\
  (List.length (images data) = 3%nat -> accepts env addPage = false ->
   outcome env data = Threw generation_error) /\
  (accepts env (save (fileName data)) = false ->
   outcome env data = Threw generation_error) /\
  (forall c, In c (writer_steps env data) -> is_caption c = false ->
     accepts env c = false ->
     outcome env data = Threw generation_error) /\
  ((forall image, In image (images data) -> loader env (url image) <> None) ->
   (forall c, is_text c = false -> accepts env c = true) ->
   outcome env data = Returned tt /\
   exists doc, document (writer_log env data) = Some doc).
Proof.
  repeat apply conj.
  - intros e.
    destruct (images data) as [| a [| b [| c [| e' rest]]]] eqn:Himg;
      execute; rewrite Himg; execute; cbn [document option_map];
      intros Hout; try discriminate Hout;
      injection Hout as <-; split; reflexivity.
  - intros e. unfold outcome, run, generatePDF, try_catch, throw.
    destruct (bind _ _ initial) as [[u | e'] s]; cbn [fst];
      intros Hbody; [discriminate Hbody | reflexivity].
  - intros Hlen (image & Hin & Hnone).
    destruct (images data) as [| a [| b [| c [| e' rest]]]] eqn:Himg;
      cbn [List.length] in Hlen; try lia; clear Hlen;
      cbn [In] in Hin;
      execute; rewrite Himg; execute; try reflexivity;
      repeat (destruct Hin as [<- | Hin]; try congruence); contradiction.
  - intros Hlen Hphoto.
    destruct (images data) as [| a [| b [| c [| e' rest]]]] eqn:Himg;
      cbn [List.length] in Hlen; try lia; clear Hlen;
      execute; rewrite Himg; execute; try reflexivity;
      match goal with
      | E : accepts env (addImage (Element ?i) ?f ?x ?y ?w ?h) = true |- _ =>
          rewrite (Hphoto (addImage (Element i) f x y w h) eq_refl) in E;
          discriminate E
      end.
  - intros Hlen Hpage.
    destruct (images data) as [| a [| b [| c [| e' rest]]]] eqn:Himg;
      cbn [List.length] in Hlen; try lia; clear Hlen;
      execute; rewrite Himg; execute; try reflexivity; congruence.
  - intros Hsave.
    destruct (images data) as [| a [| b [| c [| e' rest]]]] eqn:Himg;
      execute; rewrite Himg; execute; try reflexivity; congruence.
  - intros c.
    destruct (images data) as [| a [| b [| d [| e' rest]]]] eqn:Himg;
      unfold writer_steps; execute_under; rewrite Himg; execute_under;
      cbn [In]; intros Hin Hcap Hacc; try reflexivity;
      repeat (destruct Hin as [<- | Hin];
              try (cbv beta iota delta [onload is_caption] in Hcap;
                   discriminate Hcap);
              try congruence);
      contradiction.
  - intros Hload Hacc.
    destruct (images data) as [| a [| b [| d [| e' rest]]]] eqn:Himg;
      try pose proof (Hload a (or_introl eq_refl)) as La;
      try pose proof (Hload b (or_intror (or_introl eq_refl))) as Lb;
      try pose proof (Hload d (or_intror (or_intror (or_introl eq_refl)))) as Ld;
      execute; rewrite Himg; execute;
      cbn [document option_map]; try congruence;
      try (split; [reflexivity | eexists; reflexivity]);
      match goal with
      | E : accepts env ?c = false |- _ =>
          rewrite (Hacc c eq_refl) in E; discriminate E
      end.
Qed.

Lemma generatePDF_failure_is_generation_error_witness :
  (outcome unreachable_images (receipts 2) =
     Threw (Error "PDF 생성 중 오류가 발생했습니다.") /\
   document (writer_log unreachable_images (receipts 2)) = None) /\
  outcome (mkEnv (fun u => Some (mkImage u 400 300)) (fun c => negb (is_save c))
                 canvas_raster false) (receipts 3)
    = Threw generation_error /\
  outcome (double 400 300 false false) (receipts 3) = Returned tt.
Proof.
  split; [| split].
  - pose proof (generatePDF_failure_is_generation_error
                  unreachable_images (receipts 2))
      as (Hwrapped & _ & Hload & _).
    assert (Hout : outcome unreachable_images (receipts 2) = Threw generation_error).
    { apply Hload.
      - vm_compute; lia.
      - exists (mkImageData "a.jpg"). split; [left; reflexivity | reflexivity]. }
    split; [exact Hout | exact (proj2 (Hwrapped _ Hout))].
  - pose proof (generatePDF_failure_is_generation_error
                  (mkEnv (fun u => Some (mkImage u 400 300))
                         (fun c => negb (is_save c)) canvas_raster false)
                  (receipts 3))
      as (_ & _ & _ & _ & _ & _ & Hstep & _).
    apply (Hstep (save "2024001_Kim.pdf")).
    + vm_compute. tauto.
    + reflexivity.
    + reflexivity.
  - pose proof (generatePDF_failure_is_generation_error
                  (double 400 300 false false) (receipts 3))
      as (_ & _ & _ & _ & _ & _ & _ & Hrecovered).
    apply Hrecovered.
    + intros image _. discriminate.
    + intros [| | |]; cbn; intros E; try reflexivity; discriminate E.
Defined.

(** ** The caption *)

(** [addKoreanText] handles its own failure: nothing it does reaches the
    [catch] of its caller, whose awaited fallback is therefore never
    taken. *)
Lemma addKoreanText_returns (env : Env) (txt : string) (x y fontSize : Q) (s : State) :
  fst (addKoreanText env txt x y fontSize s) = Returned tt.
Proof.
  unfold addKoreanText, try_catch, call, addTextAsImage.
  destruct (accepts env (text txt x y fontSize)); reflexivity.
Qed.

(** When the writer draws the text directly, every page gets its caption
    before its photographs. *)
Lemma captions_lead_direct (env : Env) (data : PDFData) :
  accepts env (text (caption data) (pageWidth / 2) (margin + 15) 28) = true ->
  captions_lead (writer_log env data) = true.
Proof.
  intros Htext.
  destruct (images data) as [| a [| b [| c [| e' rest]]]] eqn:Himg;
    execute; rewrite Himg; execute; try reflexivity; congruence.
Qed.

(** C9. The ordering fails on the fallback path: with one image and a
    writer that refuses [text], the photograph is placed first, the
    document is saved, and only then is the rasterized caption placed;
    with three images the caption of page 1 is placed after the page
    break. *)
Theorem fallback_caption_after_photo :
  let log := writer_log (double 100 100 false false) (receipts 1) in
  let log3 := writer_log (double 100 100 false false) (receipts 3) in
  outcome (double 100 100 false false) (receipts 1) = Returned tt /\
  map is_photo log = [true; false; false] /\
  map is_save log = [false; true; false] /\
  map is_caption log = [false; false; true] /\
  captions_lead log = false /\
  map (existsb is_caption) (pages_of log3) = [false; true].
Proof. vm_compute. repeat split; reflexivity. Qed.

(** C8. The rasterized caption is placed 120 units wide, with height
    [120 * (rasterHeight / rasterWidth)], centred on the anchor point
    [(x, y)]: this is the call the handler installed by [addTextAsImage]
    makes once the raster has loaded; every rasterized caption that
    [generatePDF] places is the one for its caption string, anchored at
    the caption point; and whenever the direct text is refused (with 1 to
    3 images, the images before the caption loaded, the writer accepting
    the raster) that placement does occur in the execution. *)
Theorem addTextAsImage_placement (raster : HTMLImageElement) (x y : Q) :
  (0 < img_width raster)%Z -> (0 < img_height raster)%Z ->
  (exists rx ry rw rh,
     onload (mkTask raster x y) =
       addImage (DataURL (img_src raster)) "PNG" rx ry rw rh /\
     rw == 120 /\
     rh == 120 * (inject_Z (img_height raster) / inject_Z (img_width raster)) /\
     rx == x - rw / 2 /\ ry == y - rh / 2) /\
  (forall env data c,
     In c (writer_log env data) -> is_raster c = true ->
     c = onload (mkTask (rasterize env (caption data) (28 * 3))
                        (pageWidth / 2) (margin + 15))) /\
  (forall env txt fontSize log,
     rasterize env txt fontSize = raster ->
     accepts env (onload (mkTask raster x y)) = true ->
     calls (settle env (snd (addTextAsImage env txt x y fontSize (mkState log []))))
       = log ++ [onload (mkTask raster x y)]) /\
  (forall env data,
     (1 <= List.length (images data) <= 3)%nat ->
     (forall image, In image (firstn 2 (images data)) ->
        loader env (url image) <> None) ->
     rasterize env (caption data) (28 * 3) = raster ->
     accepts env (text (caption data) (pageWidth / 2) (margin + 15) 28) = false ->
     accepts env (onload (mkTask raster (pageWidth / 2) (margin + 15))) = true ->
     In (onload (mkTask raster (pageWidth / 2) (margin + 15)))
        (writer_log env data)).
Proof.
  intros _ _. split; [| split; [| split]].
  - unfold onload. cbn [task_img task_x task_y].
    do 4 eexists. split; [reflexivity |].
    repeat split; try reflexivity. ring.
  - intros env data c.
    destruct (images data) as [| a [| b [| d [| e' rest]]]] eqn:Himg;
      execute; rewrite Himg; execute; cbn [In];
      intros Hin Hr;
      repeat (destruct Hin as [<- | Hin]; try discriminate Hr; try reflexivity);
      contradiction.
  - intros env txt fontSize log <- Hacc.
    unfold settle, addTextAsImage, fire.
    cbn [snd calls pending fold_left app]. rewrite Hacc. reflexivity.
  - intros env data Hlen Hload <- Htext Hraster.
    destruct (images data) as [| a [| b [| d [| e' rest]]]] eqn:Himg;
      cbn [List.length] in Hlen; try lia; clear Hlen;
      cbn [firstn] in Hload;
      try pose proof (Hload a (or_introl eq_refl)) as La;
      try pose proof (Hload b (or_intror (or_introl eq_refl))) as Lb;
      execute; rewrite Himg; execute; try congruence;
      cbn [In]; repeat (first [left; reflexivity | right]).
Qed.

Lemma addTextAsImage_placement_witness :
  (exists rx ry rw rh,
    onload (mkTask (canvas_raster "2024001 Kim" 84) 105 35) =
      addImage (DataURL "data:image/png,2024001 Kim") "PNG" rx ry rw rh /\
    rw == 120 /\ rh == 12 /\ rx == 45 /\ ry == 29) /\
  In (onload (mkTask (canvas_raster "2024001 Kim" (28 * 3))
                     (pageWidth / 2) (margin + 15)))
     (writer_log (double 100 100 false false) (receipts 1)).
Proof.
  split.
  - destruct (addTextAsImage_placement (canvas_raster "2024001 Kim" 84) 105 35)
      as [(rx & ry & rw & rh & Hcall & Hw & Hh & Hx & Hy) _];
      [reflexivity | reflexivity |].
    exists rx, ry, rw, rh.
    split; [exact Hcall |].
    split; [exact Hw |].
    assert (Hh' : rh == 12) by (rewrite Hh; reflexivity).
    split; [exact Hh' |].
    split; [rewrite Hx, Hw; reflexivity | rewrite Hy, Hh'; reflexivity].
  - destruct (addTextAsImage_placement (canvas_raster "2024001 Kim" (28 * 3))
                (pageWidth / 2) (margin + 15))
      as (_ & _ & _ & Hplaced); [reflexivity | reflexivity |].
    apply (Hplaced (double 100 100 false false) (receipts 1)).
    + vm_compute; lia.
    + intros image _. discriminate.
    + reflexivity.
    + reflexivity.
    + reflexivity.
Defined.

(** ** Three images against two and one *)

(** C6. The branch for three images does, call for call, what the branch
    for two images does on the first two, then a page break, then what the
    branch for one image does on the third; hence (as long as no pending
    rasterized caption lands during the third load) the saved document of
    three images is the saved document of the first two, a page break, and
    the saved document of the third. *)
Theorem layout_three_reuses_two_and_one
    (env : Env) (data : PDFData) (a b c : ImageData) :
  (forall s,
     layout_three env data a b c s =
     bind (layout_two env data a b)
          (fun _ => bind (call env addPage)
                         (fun _ => layout_one env data c)) s) /\
  (let on (imgs : list ImageData) :=
     mkPDFData (studentId data) (studentName data) imgs in
   onload_during_await env = false \/
   accepts env (text (caption data) (pageWidth / 2) (margin + 15) 28) = true ->
   forall doc3,
     document (writer_log env (on [a; b; c])) = Some doc3 ->
     exists doc2 doc1,
       document (writer_log env (on [a; b])) = Some doc2 /\
       document (writer_log env (on [c])) = Some doc1 /\
       doc3 = doc2 ++ addPage :: doc1).
Proof.
  split.
  - intros s. execute; reflexivity.
  - intros on Hcase doc3.
    assert (Hcap : forall imgs, caption (on imgs) = caption data) by reflexivity.
    assert (Hfile : forall imgs, fileName (on imgs) = fileName data) by reflexivity.
    unfold writer_log, run, generatePDF, layout.
    cbn [images on].
    unfold layout_one, layout_two, layout_three.
    rewrite !Hcap, !Hfile.
    destruct Hcase as [Hlate | Hdirect].
    + execute; cbn [document option_map images];
        intros Hdoc; try discriminate Hdoc; try congruence;
        injection Hdoc as <-;
        do 2 eexists; repeat split; reflexivity.
    + execute; cbn [document option_map images];
        intros Hdoc; try discriminate Hdoc; try congruence;
        injection Hdoc as <-;
        do 2 eexists; repeat split; reflexivity.
Qed.

Lemma layout_three_reuses_two_and_one_witness :
  let env := double 400 300 true false in
  let a := mkImageData "a.jpg" in
  let b := mkImageData "b.jpg" in
  let c := mkImageData "c.jpg" in
  let on := mkPDFData "2024001" "Kim" in
  exists doc3 doc2 doc1,
    document (writer_log env (on [a; b; c])) = Some doc3 /\
    document (writer_log env (on [a; b])) = Some doc2 /\
    document (writer_log env (on [c])) = Some doc1 /\
    doc3 = doc2 ++ addPage :: doc1.
Proof.
  intros env a b c on.
  destruct (layout_three_reuses_two_and_one env (on []) a b c) as [_ Hdocs].
  destruct (document (writer_log env (on [a; b; c]))) as [doc3 |] eqn:E3;
    [| vm_compute in E3; discriminate E3].
  destruct (Hdocs (or_introl eq_refl) doc3 E3) as (doc2 & doc1 & H2 & H1 & Heq).
  exists doc3, doc2, doc1. repeat split; assumption.
Defined.

(** ** Two photographs side by side *)

(** Divisions by a literal become multiplications, for [lra]. *)
Ltac constant_divisions :=
  unfold Qdiv in *; cbn [Qinv Qnum Qden] in *.

(** The fitted width never exceeds the largest of the box width, the
    minimum width and the width forced by the minimum height. *)
Lemma fit_width_le (img : HTMLImageElement) (maxWidth maxHeight bound : Q) :
  positive_image img ->
  maxWidth <= bound -> minWidth <= bound ->
  minHeight * aspectRatio img <= bound ->
  width (calculateImageDimensions img maxWidth maxHeight) <= bound.
Proof.
  intros Hpos HW H40 H30.
  pose proof (aspectRatio_pos img Hpos) as Hr.
  unfold calculateImageDimensions, minWidth, minHeight in *.
  set (r := aspectRatio img) in *.
  pose proof (div_mul_ratio maxWidth r Hr) as Hw.
  set (hw := maxWidth / r) in *.
  destruct (Qgtb hw maxHeight) eqn:E1;
    [apply Qgtb_true in E1 | apply Qgtb_false in E1];
    match goal with
    | |- context [Qltb ?w 40] => destruct (Qltb w 40)
    end;
    match goal with
    | |- context [Qltb ?h 30] => destruct (Qltb h 30)
    end;
    cbn [width]; try lra; nra.
Qed.





(** ** More on the fit *)

(** Case analysis on every comparison the goal still tests. *)
Ltac branch_on_comparisons :=
  repeat match goal with
  | |- context [Qgtb ?a ?b] =>
      let E := fresh "Egt" in
      destruct (Qgtb a b) eqn:E;
        [apply Qgtb_true in E | apply Qgtb_false in E]
  | |- context [Qltb ?a ?b] =>
      let E := fresh "Elt" in
      destruct (Qltb a b) eqn:E;
        [apply Qltb_true in E | apply Qltb_false in E]
  end.

(** Case analysis on every minimum and maximum of the goal, innermost
    first. *)
Ltac branch_on_minmax :=
  repeat match goal with
  | |- context [Qmin ?a ?b] =>
      let L := fresh "Lmin" in
      destruct (Q.min_spec a b) as [[L ->] | [L ->]]
  | |- context [Qmax ?a ?b] =>
      lazymatch a with
      | context [Qmax _ _] => fail
      | _ =>
        let L := fresh "Lmax" in
        destruct (Q.max_spec a b) as [[L ->] | [L ->]]
      end
  end.

(** The three [if]s of [calculateImageDimensions] amount to a minimum
    followed by two maxima on the width. *)
Lemma fit_width_closed (img : HTMLImageElement) (maxWidth maxHeight : Q) :
  positive_image img ->
  let r := aspectRatio img in
  let d := calculateImageDimensions img maxWidth maxHeight in
  width d == Qmax (Qmax (Qmin maxWidth (maxHeight * r)) 40) (30 * r) /\
  height d * r == width d.
Proof.
  intros Hpos r d.
  pose proof (aspectRatio_pos img Hpos) as Hr. fold r in Hr.
  subst d. unfold calculateImageDimensions, minWidth, minHeight. fold r.
  pose proof (div_mul_ratio maxWidth r Hr) as Hw.
  pose proof (div_mul_ratio 40 r Hr) as H40.
  set (hw := maxWidth / r) in *. set (h40 := 40 / r) in *.
  set (hr := maxHeight * r) in *.
  assert (Ehr : hr == maxHeight * r) by reflexivity.
  branch_on_minmax; branch_on_comparisons;
    cbn [width height]; split; try lra; nra.
Qed.

(** X1. The width is the box width capped by the height-constrained
    width, then raised to 40 and to the width a height of 30 needs; the
    height is that width divided by the aspect ratio. *)
Theorem calculateImageDimensions_closed_form
    (img : HTMLImageElement) (maxWidth maxHeight : Q) :
  positive_image img ->
  let r := aspectRatio img in
  let d := calculateImageDimensions img maxWidth maxHeight in
  width d == Qmax (Qmax (Qmin maxWidth (maxHeight * r)) 40) (30 * r) /\
  height d == Qmax (Qmax (Qmin maxWidth (maxHeight * r)) 40) (30 * r) / r.
Proof.
  intros Hpos r d.
  pose proof (aspectRatio_pos img Hpos) as Hr. fold r in Hr.
  destruct (fit_width_closed img maxWidth maxHeight Hpos) as [Hw Hh].
  fold r in Hw, Hh. fold d in Hw, Hh.
  split; [exact Hw |].
  rewrite <- Hw, <- Hh. field. lra.
Qed.

Lemma calculateImageDimensions_closed_form_witness :
  let img := mkImage "wide.jpg" 1000 100 in
  let d := calculateImageDimensions img 69.75 195.3 in
  width d == Qmax (Qmax (Qmin 69.75 (195.3 * aspectRatio img)) 40)
                  (30 * aspectRatio img) /\
  width d == 300.
Proof.
  intros img d.
  assert (P : positive_image img) by (split; reflexivity).
  split.
  - exact (proj1 (calculateImageDimensions_closed_form img 69.75 195.3 P)).
  - reflexivity.
Defined.

(** X2. The result stays inside the box exactly when the box is at least
    40 x 30 and the aspect ratio lets a 40-wide image fit its height and a
    30-high image fit its width; in every other case a size floor pushes
    the image out of the box. *)
Theorem calculateImageDimensions_within_box_iff
    (img : HTMLImageElement) (maxWidth maxHeight : Q) :
  positive_image img ->
  let r := aspectRatio img in
  let d := calculateImageDimensions img maxWidth maxHeight in
  (width d <= maxWidth /\ height d <= maxHeight) <->
  (40 <= maxWidth /\ 30 <= maxHeight /\
   40 <= maxHeight * r /\ 30 * r <= maxWidth).
Proof.
  intros Hpos r d.
  pose proof (aspectRatio_pos img Hpos) as Hr. fold r in Hr.
  destruct (fit_width_closed img maxWidth maxHeight Hpos) as [Hw Hh].
  fold r in Hw, Hh. fold d in Hw, Hh.
  set (w := width d) in *. set (h := height d) in *.
  set (hr := maxHeight * r) in *.
  assert (Ehr : hr == maxHeight * r) by reflexivity.
  revert Hw. branch_on_minmax; intros Hw; split; intros H;
    repeat split; try lra; try nra.
Qed.

Lemma calculateImageDimensions_within_box_iff_witness :
  let img := mkImage "photo.jpg" 400 300 in
  let d := calculateImageDimensions img 136 173.6 in
  width d <= 136 /\ height d <= 173.6.
Proof.
  intros img d.
  assert (P : positive_image img) by (split; reflexivity).
  apply (calculateImageDimensions_within_box_iff img 136 173.6 P).
  repeat split; vm_compute; discriminate.
Defined.

(** X3. The result depends on the image only through its aspect ratio:
    two images of the same proportions get the same size in the same
    box, whatever their resolutions. *)
Theorem calculateImageDimensions_resolution_independent
    (img1 img2 : HTMLImageElement) (maxWidth maxHeight : Q) :
  positive_image img1 -> positive_image img2 ->
  aspectRatio img1 == aspectRatio img2 ->
  width (calculateImageDimensions img1 maxWidth maxHeight) ==
    width (calculateImageDimensions img2 maxWidth maxHeight) /\
  height (calculateImageDimensions img1 maxWidth maxHeight) ==
    height (calculateImageDimensions img2 maxWidth maxHeight).
Proof.
  intros P1 P2 Hr.
  pose proof (aspectRatio_pos img1 P1) as Hr1.
  pose proof (aspectRatio_pos img2 P2) as Hr2.
  destruct (fit_width_closed img1 maxWidth maxHeight P1) as [Hw1 Hh1].
  destruct (fit_width_closed img2 maxWidth maxHeight P2) as [Hw2 Hh2].
  cbv zeta in Hw1, Hh1, Hw2, Hh2.
  rewrite Hr in Hw1. rewrite <- Hw2 in Hw1.
  split; [exact Hw1 |].
  rewrite <- Hh1, <- Hh2, Hr in Hw1.
  apply (Qmult_inj_r _ _ (aspectRatio img2)); [lra | exact Hw1].
Qed.

Lemma calculateImageDimensions_resolution_independent_witness :
  width (calculateImageDimensions (mkImage "small.jpg" 400 300) 136 173.6) ==
    width (calculateImageDimensions (mkImage "large.jpg" 4000 3000) 136 173.6) /\
  height (calculateImageDimensions (mkImage "small.jpg" 400 300) 136 173.6) ==
    height (calculateImageDimensions (mkImage "large.jpg" 4000 3000) 136 173.6).
Proof.
  apply calculateImageDimensions_resolution_independent.
  - split; reflexivity.
  - split; reflexivity.
  - reflexivity.
Defined.

(** X4. A larger box never gives a smaller image: the returned width and
    height are monotone in both sides of the box. *)
Theorem calculateImageDimensions_monotone
    (img : HTMLImageElement) (maxWidth maxHeight maxWidth' maxHeight' : Q) :
  positive_image img ->
  maxWidth <= maxWidth' -> maxHeight <= maxHeight' ->
  width (calculateImageDimensions img maxWidth maxHeight) <=
    width (calculateImageDimensions img maxWidth' maxHeight') /\
  height (calculateImageDimensions img maxWidth maxHeight) <=
    height (calculateImageDimensions img maxWidth' maxHeight').
Proof.
  intros Hpos HW HH.
  pose proof (aspectRatio_pos img Hpos) as Hr.
  destruct (fit_width_closed img maxWidth maxHeight Hpos) as [Hw Hh].
  destruct (fit_width_closed img maxWidth' maxHeight' Hpos) as [Hw' Hh'].
  cbv zeta in Hw, Hh, Hw', Hh'.
  set (r := aspectRatio img) in *.
  assert (Hmul : maxHeight * r <= maxHeight' * r)
    by (apply Qmult_le_compat_r; [exact HH | lra]).
  set (hr := maxHeight * r) in *. set (hr' := maxHeight' * r) in *.
  set (w := width (calculateImageDimensions img maxWidth maxHeight)) in *.
  set (w' := width (calculateImageDimensions img maxWidth' maxHeight')) in *.
  set (h := height (calculateImageDimensions img maxWidth maxHeight)) in *.
  set (h' := height (calculateImageDimensions img maxWidth' maxHeight')) in *.
  assert (Hle : w <= w').
  { revert Hw Hw'. branch_on_minmax; intros Hw Hw'; lra. }
  split; [exact Hle | nra].
Qed.

Lemma calculateImageDimensions_monotone_witness :
  width (calculateImageDimensions (mkImage "photo.jpg" 400 300) 69.75 173.6) <=
    width (calculateImageDimensions (mkImage "photo.jpg" 400 300) 136 195.3).
Proof.
  refine (proj1 (calculateImageDimensions_monotone
                   (mkImage "photo.jpg" 400 300) 69.75 173.6 136 195.3 _ _ _)).
  - split; reflexivity.
  - vm_compute; discriminate.
  - vm_compute; discriminate.
Defined.


(** ** More on the executions *)

(** The fitted height stays below a bound that dominates the box height,
    the minimum height and the height forced by the minimum width. *)
Lemma fit_height_le (img : HTMLImageElement) (maxWidth maxHeight bound : Q) :
  positive_image img ->
  maxHeight <= bound -> minHeight <= bound ->
  minWidth <= bound * aspectRatio img ->
  height (calculateImageDimensions img maxWidth maxHeight) <= bound.
Proof.
  intros Hpos HH H30 H40.
  pose proof (aspectRatio_pos img Hpos) as Hr.
  destruct (fit_width_closed img maxWidth maxHeight Hpos) as [Hw Hh].
  cbv zeta in Hw, Hh. unfold minWidth, minHeight in *.
  set (r := aspectRatio img) in *.
  set (w := width (calculateImageDimensions img maxWidth maxHeight)) in *.
  set (h := height (calculateImageDimensions img maxWidth maxHeight)) in *.
  assert (Hmul : maxHeight * r <= bound * r)
    by (apply Qmult_le_compat_r; [exact HH | lra]).
  assert (Hfloor : 30 * r <= bound * r)
    by (apply Qmult_le_compat_r; [exact H30 | lra]).
  set (hr := maxHeight * r) in *. set (br := bound * r) in *.
  assert (Hbr : h * r <= br).
  { rewrite Hh. revert Hw. branch_on_minmax; intros Hw; lra. }
  assert (Ebr : br == bound * r) by reflexivity.
  nra.
Qed.

(** X5. One image: the photograph is centred on the vertical axis of the
    page and starts 60 units from the top, whatever its size; when its
    aspect ratio lies between 40:217 and 17:3 it stays inside the
    margins. *)
Theorem single_image_centred
    (env : Env) (data : PDFData) (a : ImageData) (img : HTMLImageElement) :
  images data = [a] -> loader env (url a) = Some img -> positive_image img ->
  forall p, In p (photo_placements (writer_log env data)) ->
    px p + pwidth p / 2 == pageWidth / 2 /\
    py p == 60 /\
    ((40 # 217) <= aspectRatio img -> aspectRatio img <= (17 # 3) ->
     margin <= px p /\ px p + pwidth p <= pageWidth - margin /\
     py p + pheight p <= pageHeight - margin).
Proof.
  intros Himg La Hpos p.
  pose proof (fit_width_le img (contentWidth * 0.8)
                ((contentHeight - 40) * 0.8) 170 Hpos) as Hw.
  pose proof (fit_height_le img (contentWidth * 0.8)
                ((contentHeight - 40) * 0.8) 217 Hpos) as Hh.
  execute; rewrite Himg; unfold_run; rewrite ?La; execute;
    cbn [photo_placements In]; intros Hin;
    repeat (destruct Hin as [<- | Hin]); try contradiction;
    cbn [px py pwidth pheight];
    (split; [| split];
     [ unfold contentWidth, pageWidth, margin; constant_divisions; lra
     | unfold margin; lra
     | intros Rlo Rhi;
       unfold contentWidth, contentHeight, pageWidth, pageHeight, margin,
         minWidth, minHeight in *;
       constant_divisions;
       assert (Hw' := Hw ltac:(lra) ltac:(lra) ltac:(lra));
       assert (Hh' := Hh ltac:(lra) ltac:(lra) ltac:(lra));
       lra ]).
Qed.

Lemma single_image_centred_witness :
  exists p,
    photo_placements (writer_log (double 400 300 true false) (receipts 1)) = [p] /\
    px p + pwidth p / 2 == pageWidth / 2 /\ py p == 60 /\
    margin <= px p /\ px p + pwidth p <= pageWidth - margin /\
    py p + pheight p <= pageHeight - margin.
Proof.
  destruct (photo_placements (writer_log (double 400 300 true false) (receipts 1)))
    as [| p [| q more]] eqn:E; try (vm_compute in E; discriminate E).
  exists p. split; [reflexivity |].
  assert (P : positive_image (mkImage "a.jpg" 400 300)) by (split; reflexivity).
  assert (Hin : In p (photo_placements
                        (writer_log (double 400 300 true false) (receipts 1))))
    by (rewrite E; left; reflexivity).
  destruct (single_image_centred (double 400 300 true false) (receipts 1)
              (mkImageData "a.jpg") (mkImage "a.jpg" 400 300)
              eq_refl eq_refl P p Hin) as (Hc & Hy & Hin').
  split; [exact Hc |]. split; [exact Hy |].
  apply Hin'; vm_compute; discriminate.
Defined.

(** X6. Two per page, images of positive pixel dimensions: each
    photograph is centred in its column (axes at 58.75 and 151.25) and on
    the middle line of the image band (168.5), whatever its size; when
    neither image is wider than 93:40 the photographs are at least 22.75
    apart. *)
Theorem two_images_centred_in_columns
    (env : Env) (data : PDFData) (a b : ImageData) (rest : list ImageData)
    (img1 img2 : HTMLImageElement) :
  images data = a :: b :: rest -> (List.length rest <= 1)%nat ->
  loader env (url a) = Some img1 -> loader env (url b) = Some img2 ->
  positive_image img1 -> positive_image img2 ->
  forall p1 p2 more,
    photo_placements (writer_log env data) = p1 :: p2 :: more ->
    px p1 + pwidth p1 / 2 == 58.75 /\
    px p2 + pwidth p2 / 2 == 151.25 /\
    py p1 + pheight p1 / 2 == 168.5 /\
    py p2 + pheight p2 / 2 == 168.5 /\
    (aspectRatio img1 <= (93 # 40) -> aspectRatio img2 <= (93 # 40) ->
     px p1 + pwidth p1 + 22.75 <= px p2).
Proof.
  intros Himg Hlen La Lb P1 P2 p1 p2 more.
  assert (Hw : forall img, positive_image img -> aspectRatio img <= (93 # 40) ->
            width (calculateImageDimensions img
                     ((contentWidth - 15) / 2 * 0.9)
                     ((contentHeight - 40) * 0.9)) <= 69.75).
  { intros img Hp Hr. apply fit_width_le; try assumption;
      unfold contentWidth, pageWidth, margin, minWidth, minHeight;
      constant_divisions; lra. }
  destruct rest as [| c [| e' rest]]; cbn [List.length] in Hlen; try lia;
    execute; rewrite Himg; unfold_run; rewrite ?La, ?Lb; execute;
    cbn [photo_placements]; intros Hp; try discriminate Hp;
    injection Hp as <- <- <-; cbn [px py pwidth pheight];
    (repeat split;
     [ .. | intros R1 R2;
            pose proof (Hw img1 P1 R1); pose proof (Hw img2 P2 R2) ]);
    unfold contentWidth, contentHeight, pageWidth, pageHeight, margin in *;
    constant_divisions; lra.
Qed.

Lemma two_images_centred_in_columns_witness :
  exists p1 p2,
    photo_placements (writer_log (double 400 300 true false) (receipts 2)) = [p1; p2] /\
    px p1 + pwidth p1 / 2 == 58.75 /\ px p2 + pwidth p2 / 2 == 151.25 /\
    px p1 + pwidth p1 + 22.75 <= px p2.
Proof.
  destruct (photo_placements (writer_log (double 400 300 true false) (receipts 2)))
    as [| p1 [| p2 [| p3 more]]] eqn:E; try (vm_compute in E; discriminate E).
  exists p1, p2. split; [reflexivity |].
  assert (P : positive_image (mkImage "a.jpg" 400 300)) by (split; reflexivity).
  assert (P' : positive_image (mkImage "b.jpg" 400 300)) by (split; reflexivity).
  destruct (two_images_centred_in_columns (double 400 300 true false) (receipts 2)
              (mkImageData "a.jpg") (mkImageData "b.jpg") []
              (mkImage "a.jpg" 400 300) (mkImage "b.jpg" 400 300)
              eq_refl (le_0_n 1) eq_refl eq_refl P P' p1 p2 [] E)
    as (H1 & H2 & _ & _ & Hgap).
  split; [exact H1 |]. split; [exact H2 |].
  apply Hgap; vm_compute; discriminate.
Defined.

(** X7. Two per page: when both aspect ratios lie between 40:217 and
    31:12, each photograph stays inside its own column and inside the
    image band, so the 15-unit gutter between the columns is kept free. *)
Theorem two_images_within_columns
    (env : Env) (data : PDFData) (a b : ImageData) (rest : list ImageData)
    (img1 img2 : HTMLImageElement) :
  images data = a :: b :: rest -> (List.length rest <= 1)%nat ->
  loader env (url a) = Some img1 -> loader env (url b) = Some img2 ->
  positive_image img1 -> positive_image img2 ->
  (40 # 217) <= aspectRatio img1 -> aspectRatio img1 <= (31 # 12) ->
  (40 # 217) <= aspectRatio img2 -> aspectRatio img2 <= (31 # 12) ->
  forall p1 p2 more,
    photo_placements (writer_log env data) = p1 :: p2 :: more ->
    (margin <= px p1 /\ px p1 + pwidth p1 <= margin + 77.5) /\
    (margin + 77.5 + 15 <= px p2 /\ px p2 + pwidth p2 <= pageWidth - margin) /\
    (margin + 40 <= py p1 /\ py p1 + pheight p1 <= pageHeight - margin) /\
    (margin + 40 <= py p2 /\ py p2 + pheight p2 <= pageHeight - margin).
Proof.
  intros Himg Hlen La Lb P1 P2 Lo1 Hi1 Lo2 Hi2 p1 p2 more.
  assert (Hw : forall img, positive_image img -> aspectRatio img <= (31 # 12) ->
            width (calculateImageDimensions img
                     ((contentWidth - 15) / 2 * 0.9)
                     ((contentHeight - 40) * 0.9)) <= 77.5).
  { intros img Hp Hr. apply fit_width_le; try assumption;
      unfold contentWidth, pageWidth, margin, minWidth, minHeight;
      constant_divisions; lra. }
  assert (Hh : forall img, positive_image img -> (40 # 217) <= aspectRatio img ->
            height (calculateImageDimensions img
                     ((contentWidth - 15) / 2 * 0.9)
                     ((contentHeight - 40) * 0.9)) <= 217).
  { intros img Hp Hr. apply fit_height_le; try assumption;
      unfold contentHeight, pageHeight, margin, minWidth, minHeight;
      constant_divisions; lra. }
  pose proof (Hw img1 P1 Hi1). pose proof (Hw img2 P2 Hi2).
  pose proof (Hh img1 P1 Lo1). pose proof (Hh img2 P2 Lo2).
  destruct rest as [| c [| e' rest]]; cbn [List.length] in Hlen; try lia;
    execute; rewrite Himg; unfold_run; rewrite ?La, ?Lb; execute;
    cbn [photo_placements]; intros Hp; try discriminate Hp;
    injection Hp as <- <- <-; cbn [px py pwidth pheight];
    unfold contentWidth, contentHeight, pageWidth, pageHeight, margin in *;
    constant_divisions; repeat split; lra.
Qed.

Lemma two_images_within_columns_witness :
  exists p1 p2 more,
    photo_placements (writer_log (double 400 300 true false) (receipts 3))
      = p1 :: p2 :: more /\
    px p1 + pwidth p1 <= margin + 77.5 /\ margin + 77.5 + 15 <= px p2.
Proof.
  destruct (photo_placements (writer_log (double 400 300 true false) (receipts 3)))
    as [| p1 [| p2 more]] eqn:E; try (vm_compute in E; discriminate E).
  assert (P : positive_image (mkImage "a.jpg" 400 300)) by (split; reflexivity).
  assert (P' : positive_image (mkImage "b.jpg" 400 300)) by (split; reflexivity).
  destruct (two_images_within_columns (double 400 300 true false) (receipts 3)
              (mkImageData "a.jpg") (mkImageData "b.jpg") [mkImageData "c.jpg"]
              (mkImage "a.jpg" 400 300) (mkImage "b.jpg" 400 300)
              eq_refl (le_n 1) eq_refl eq_refl P P') with (p1 := p1) (p2 := p2) (more := more)
    as ((_ & H1) & (H2 & _) & _); try (vm_compute; discriminate); try exact E.
  exists p1, p2, more. split; [reflexivity | split; assumption].
Defined.

(** X8. Every photograph that reaches the writer is one of the loaded
    images, placed as JPEG with its own aspect ratio, at least 40 wide and
    30 high. *)
Theorem placed_photos_are_faithful (env : Env) (data : PDFData) :
  forall img format x y w h,
    In (addImage (Element img) format x y w h) (writer_log env data) ->
    positive_image img ->
    format = "JPEG"%string /\
    (exists image, In image (images data) /\ loader env (url image) = Some img) /\
    w == h * aspectRatio img /\ 40 <= w /\ 30 <= h.
Proof.
  intros img format x y w h.
  destruct (images data) as [| a [| b [| c [| e' rest]]]] eqn:Himg;
    execute; rewrite Himg; execute; cbn [In];
    intros Hin Hpos;
    repeat (destruct Hin as [Hc | Hin]; try discriminate Hc);
    try contradiction;
    injection Hc as -> <- <- <- <- <-;
    (split; [reflexivity |]);
    (split; [eexists; split; [| eassumption]; cbn [In]; tauto |]);
    apply (fit_invariant img Hpos).
Qed.

Lemma placed_photos_are_faithful_witness :
  exists x y w h,
    In (addImage (Element (mkImage "a.jpg" 1 5000)) "JPEG" x y w h)
       (writer_log (double 1 5000 true false) (receipts 1)) /\
    w == h * aspectRatio (mkImage "a.jpg" 1 5000) /\ 40 <= w /\ 30 <= h.
Proof.
  destruct (writer_log (double 1 5000 true false) (receipts 1))
    as [| c0 [| [| [i | u] f x y w h | |] l]] eqn:E;
    try (vm_compute in E; discriminate E).
  assert (Hi : i = mkImage "a.jpg" 1 5000 /\ f = "JPEG"%string).
  { vm_compute in E. injection E as _ -> -> _ _ _ _ _. split; reflexivity. }
  destruct Hi as [-> ->].
  exists x, y, w, h.
  assert (Hin : In (addImage (Element (mkImage "a.jpg" 1 5000)) "JPEG" x y w h)
                   (writer_log (double 1 5000 true false) (receipts 1)))
    by (rewrite E; right; left; reflexivity).
  split; [rewrite <- E; exact Hin |].
  assert (P : positive_image (mkImage "a.jpg" 1 5000)) by (split; reflexivity).
  exact (proj2 (proj2 (placed_photos_are_faithful _ _ _ _ x y w h Hin P))).
Defined.

(** X9. Nothing is written before the first two images are loaded: when
    the first image, or the second of two or three, fails to load, the
    writer receives no call at all and the generation error is raised. *)
Theorem no_writing_before_loads
    (env : Env) (data : PDFData) (a : ImageData) (rest : list ImageData) :
  images data = a :: rest -> (List.length rest <= 2)%nat ->
  loader env (url a) = None \/
  (exists b rest', rest = b :: rest' /\ loader env (url b) = None) ->
  writer_log env data = [] /\ outcome env data = Threw generation_error.
Proof.
  intros Himg Hlen Hfail.
  destruct rest as [| b [| c [| e' rest]]]; cbn [List.length] in Hlen; try lia;
    (destruct Hfail as [La | (b' & rest' & Hrest & Lb)];
     [| try discriminate Hrest; injection Hrest as <- <-]);
    execute; rewrite Himg; unfold_run; rewrite ?La, ?Lb; execute;
    try (split; reflexivity); congruence.
Qed.

Lemma no_writing_before_loads_witness :
  writer_log unreachable_images (receipts 3) = [] /\
  outcome unreachable_images (receipts 3) = Threw generation_error.
Proof.
  apply (no_writing_before_loads unreachable_images (receipts 3)
           (mkImageData "a.jpg") [mkImageData "b.jpg"; mkImageData "c.jpg"]).
  - reflexivity.
  - cbn; lia.
  - left; reflexivity.
Defined.

(** X10. [generatePDF] returns normally exactly when a document has been
    saved; [save] completes at most once, under [{id}_{name}.pdf], and the
    main flow writes nothing after it (only late rasterized captions can
    follow). *)
Theorem saved_exactly_when_returned (env : Env) (data : PDFData) :
  (outcome env data = Returned tt <->
   exists doc, document (writer_log env data) = Some doc) /\
  (forall c, In c (writer_log env data) -> is_save c = true ->
     c = save (studentId data ++ "_" ++ studentName data ++ ".pdf")) /\
  (List.length (filter is_save (writer_log env data)) <= 1)%nat /\
  (forall doc, document (writer_log env data) = Some doc ->
     exists late,
       writer_log env data = doc ++ save (fileName data) :: late /\
       forallb is_raster late = true).
Proof.
  destruct (images data) as [| a [| b [| c [| e' rest]]]] eqn:Himg;
    execute; rewrite Himg; execute;
    cbn [document option_map filter is_save List.length In onload];
    (split; [split; [intros H; try discriminate H; eexists; reflexivity
                    | intros [doc H]; try discriminate H; reflexivity] |]);
    (split; [intros c0 Hin Hs;
             repeat (destruct Hin as [<- | Hin]; try discriminate Hs);
             try contradiction; reflexivity |]);
    (split; [lia |]);
    intros doc Hdoc; try discriminate Hdoc; injection Hdoc as <-;
    eexists; split; reflexivity.
Qed.

Lemma saved_exactly_when_returned_witness :
  outcome (double 400 300 false true) (receipts 3) = Returned tt /\
  exists doc late,
    writer_log (double 400 300 false true) (receipts 3)
      = doc ++ save "2024001_Kim.pdf" :: late /\
    forallb is_raster late = true.
Proof.
  destruct (saved_exactly_when_returned (double 400 300 false true) (receipts 3))
    as (Hiff & _ & _ & Hlate).
  destruct (document (writer_log (double 400 300 false true) (receipts 3)))
    as [doc |] eqn:E; [| vm_compute in E; discriminate E].
  split.
  - apply Hiff. exists doc. reflexivity.
  - destruct (Hlate doc eq_refl) as (late & Hlog & Hr).
    exists doc, late. split; [exact Hlog | exact Hr].
Defined.

(** Symbolic execution of two runs that differ in the text step. *)
Ltac execute_both :=
  unfold_run;
  repeat (cbn [with_direct_text accepts loader rasterize onload_during_await];
          ask_collaborator; unfold_run);
  cbn [with_direct_text accepts loader rasterize onload_during_await].

(** X11. A failure of direct text placement is never surfaced: the
    outcome of [generatePDF] and the sequence of all its other writer
    calls (photographs, page break, save) are the same as with a writer
    that draws the text. *)
Theorem text_failure_is_not_surfaced (env : Env) (data : PDFData) :
  outcome env data = outcome (with_direct_text env) data /\
  filter (fun c => negb (is_caption c)) (writer_log env data) =
  filter (fun c => negb (is_caption c)) (writer_log (with_direct_text env) data).
Proof.
  destruct (images data) as [| a [| b [| c [| e' rest]]]] eqn:Himg;
    execute_both; rewrite Himg; execute_both;
    cbn [filter is_caption negb onload]; split; reflexivity.
Qed.

(** X12. When the writer draws the text and a document is saved, every
    page of it consists of the caption text at (105, 35) in size 28
    followed by its photographs, and the document holds one photograph per
    input image. *)
Theorem direct_text_pages_start_with_caption (env : Env) (data : PDFData) :
  accepts env (text (caption data) (pageWidth / 2) (margin + 15) 28) = true ->
  (1 <= List.length (images data) <= 3)%nat ->
  forall doc, document (writer_log env data) = Some doc ->
    (forall page, In page (pages_of doc) ->
       exists photos,
         page = text (caption data) (pageWidth / 2) (margin + 15) 28 :: photos /\
         photos <> [] /\ forallb is_photo photos = true) /\
    List.length (photo_placements doc) = List.length (images data).
Proof.
  intros Htext Hlen doc.
  destruct (images data) as [| a [| b [| c [| e' rest]]]] eqn:Himg;
    cbn [List.length] in Hlen; try lia; clear Hlen;
    execute; rewrite Himg; execute; try congruence;
    cbn [document option_map]; intros Hdoc; try discriminate Hdoc;
    injection Hdoc as <-; cbn [pages_of photo_placements List.length In];
    (split; [| reflexivity]);
    intros page Hin;
    repeat (destruct Hin as [<- | Hin]); try contradiction;
    eexists; (split; [reflexivity | split; [discriminate | reflexivity]]).
Qed.

Lemma direct_text_pages_start_with_caption_witness :
  exists doc,
    document (writer_log (double 400 300 true false) (receipts 3)) = Some doc /\
    List.length (pages_of doc) = 2%nat /\
    List.length (photo_placements doc) = 3%nat.
Proof.
  destruct (document (writer_log (double 400 300 true false) (receipts 3)))
    as [doc |] eqn:E; [| vm_compute in E; discriminate E].
  exists doc. split; [reflexivity |].
  destruct (direct_text_pages_start_with_caption
              (double 400 300 true false) (receipts 3) eq_refl
              (conj (le_S _ _ (le_S _ _ (le_n 1))) (le_n 3)) doc E) as [_ Hn].
  split; [| exact Hn].
  vm_compute in E. injection E as <-. reflexivity.
Defined.

(** X13. When the writer refuses the text, the first page of a saved
    document holds photographs only, and with one or two images the whole
    document does: the rasterized caption is placed too late to be part
    of it. *)
Theorem fallback_document_lacks_caption (env : Env) (data : PDFData) :
  accepts env (text (caption data) (pageWidth / 2) (margin + 15) 28) = false ->
  (1 <= List.length (images data) <= 3)%nat ->
  forall doc, document (writer_log env data) = Some doc ->
    forallb is_photo (hd [] (pages_of doc)) = true /\
    ((List.length (images data) <= 2)%nat -> forallb is_photo doc = true).
Proof.
  intros Htext Hlen doc.
  destruct (images data) as [| a [| b [| c [| e' rest]]]] eqn:Himg;
    cbn [List.length] in Hlen; try lia; clear Hlen;
    execute; rewrite Himg; execute; try congruence;
    cbn [document option_map]; intros Hdoc; try discriminate Hdoc;
    injection Hdoc as <-; cbn [pages_of hd List.length];
    (split; [reflexivity | intros Hn; try lia; reflexivity]).
Qed.

Lemma fallback_document_lacks_caption_witness :
  exists doc,
    document (writer_log (double 400 300 false true) (receipts 2)) = Some doc /\
    forallb is_photo doc = true.
Proof.
  destruct (document (writer_log (double 400 300 false true) (receipts 2)))
    as [doc |] eqn:E; [| vm_compute in E; discriminate E].
  exists doc. split; [reflexivity |].
  destruct (fallback_document_lacks_caption
              (double 400 300 false true) (receipts 2) eq_refl
              (conj (le_S _ _ (le_n 1)) (le_S _ _ (le_n 2))) doc E) as [_ Hall].
  apply Hall. apply le_n.
Defined.

(** X14. [addKoreanText] never throws: it either appends the text call
    or, when the writer refuses it, leaves the log alone and installs one
    pending handler for a raster drawn at three times the font size; a
    [catch] around it, such as the awaited fallback in [generatePDF], is
    never entered. *)
Theorem addKoreanText_never_throws
    (env : Env) (txt : string) (x y fontSize : Q)
    (handler : Thrown -> M unit) (s : State) :
  try_catch (addKoreanText env txt x y fontSize) handler s =
    addKoreanText env txt x y fontSize s /\
  addKoreanText env txt x y fontSize s =
    (Returned tt,
     if accepts env (text txt x y fontSize)
     then mkState (calls s ++ [text txt x y fontSize]) (pending s)
     else mkState (calls s)
            (pending s ++ [mkTask (rasterize env txt (fontSize * 3)) x y])).
Proof.
  unfold try_catch at 1.
  unfold addKoreanText, try_catch, call, addTextAsImage.
  destruct (accepts env (text txt x y fontSize)); split; reflexivity.
Qed.
